(** * A shallow embedding of the NanoLog runtime core (src/runtime/FastLogger.cc)

    Pointers into a StagingBuffer's [storage] are modelled as byte offsets
    from [storage] (so [storage] is [0] and [endOfBuffer] is
    [STAGING_BUFFER_SIZE]); [size_t] and [uint64_t] values are [Z] reduced
    modulo [2^64] where the source converts a pointer difference into them.
    Values read from variables that another thread writes are supplied by
    an explicit environment (a list of the values observed, in order). *)

From Stdlib Require Import String.
From Stdlib Require Import ZArith Lia List Bool.
Import ListNotations.
Open Scope Z_scope.

(** Conversion of a [ptrdiff_t] into a [size_t] / [uint64_t]. *)
Definition to_u64 (z : Z) : Z := z mod 2 ^ 64.

(** ** StagingBuffer *)

(** The fields of [FastLogger::StagingBuffer] that the ring protocol uses. *)
Record StagingBuffer := mkSB {
  producerPos : Z;
  consumerPos : Z;
  endOfRecordedSpace : Z;
  minFreeSpace : Z
}.

Definition set_producerPos (st : StagingBuffer) (p : Z) : StagingBuffer :=
  mkSB p (consumerPos st) (endOfRecordedSpace st) (minFreeSpace st).
Definition set_consumerPos (st : StagingBuffer) (c : Z) : StagingBuffer :=
  mkSB (producerPos st) c (endOfRecordedSpace st) (minFreeSpace st).
Definition set_endOfRecordedSpace (st : StagingBuffer) (e : Z) : StagingBuffer :=
  mkSB (producerPos st) (consumerPos st) e (minFreeSpace st).
Definition set_minFreeSpace (st : StagingBuffer) (m : Z) : StagingBuffer :=
  mkSB (producerPos st) (consumerPos st) (endOfRecordedSpace st) m.

(** Result of [reserveSpaceInternal]: the returned pointer ([None] is
    [nullptr]) and the final state, or [Spinning] when the loop is still
    running after every observation of [consumerPos] was used. *)
Inductive reserve_result :=
| Reserved (r : option Z) (st : StagingBuffer)
| Spinning (st : StagingBuffer).

Section Ring.

Variable STAGING_BUFFER_SIZE : Z.

(** [FastLogger::StagingBuffer::reserveSpaceInternal].  [reads] are the
    successive values the producer loads from [consumerPos] (the consumer
    runs concurrently), one per iteration of the [while] loop. *)
Fixpoint reserveSpaceInternal (reads : list Z) (nbytes : Z) (blocking : bool)
    (st : StagingBuffer) : reserve_result :=
  let endOfBuffer := STAGING_BUFFER_SIZE in
  if minFreeSpace st <=? nbytes then
    match reads with
    | [] => Spinning st
    | cachedReadPos :: reads' =>
        let '(ret, st1) :=
          if cachedReadPos <=? producerPos st then
            let st0 := set_minFreeSpace st (to_u64 (endOfBuffer - producerPos st)) in
            if minFreeSpace st0 >? nbytes then (true, st0)
            else (false, set_producerPos (set_endOfRecordedSpace st0 (producerPos st0)) 0)
          else (false, st) in
        if ret then Reserved (Some (producerPos st1)) st1
        else
          let st2 := set_minFreeSpace st1 (to_u64 (cachedReadPos - producerPos st1)) in
          if negb blocking && (minFreeSpace st2 <=? nbytes) then Reserved None st2
          else reserveSpaceInternal reads' nbytes blocking st2
    end
  else Reserved (Some (producerPos st)) st.

(** [FastLogger::StagingBuffer::peek]: the returned pointer, the value
    stored into [*bytesAvailable], and the new state. *)
Definition peek (st : StagingBuffer) : Z * Z * StagingBuffer :=
  let cachedRecordHead := producerPos st in
  if cachedRecordHead <? consumerPos st then
    let bytesAvailable := to_u64 (endOfRecordedSpace st - consumerPos st) in
    if bytesAvailable >? 0 then (consumerPos st, bytesAvailable, st)
    else
      let st' := set_consumerPos st 0 in
      (consumerPos st', to_u64 (cachedRecordHead - consumerPos st'), st')
  else (consumerPos st, to_u64 (cachedRecordHead - consumerPos st), st).

(** The slow-path iteration as the spec words it (section 4.1, steps 1-3),
    for comparison with [reserveSpaceInternal]. *)
Inductive spec_step :=
| SpecReturn (r : option Z) (st : StagingBuffer)
| SpecLoop (st : StagingBuffer).

Definition reserve_slow_iteration_spec (c nbytes : Z) (blocking : bool)
    (st : StagingBuffer) : spec_step :=
  (* 2. tail run when the consumer is not ahead of the producer *)
  let tail := STAGING_BUFFER_SIZE - producerPos st in
  if (c <=? producerPos st) && (tail >? nbytes) then
    SpecReturn (Some (producerPos st)) (set_minFreeSpace st tail)
  else
    let st_wrapped :=
      if c <=? producerPos st
      then mkSB 0 (consumerPos st) (producerPos st) tail
      else st in
    (* 3. recompute the cache from the loaded consumer position *)
    let st3 := set_minFreeSpace st_wrapped (c - producerPos st_wrapped) in
    if negb blocking && (minFreeSpace st3 <=? nbytes)
    then SpecReturn None st3
    else SpecLoop st3.

End Ring.

(** ** Drainer: the scan of [FastLogger::compressionThreadMain] *)

(** [BufferUtils::UncompressedLogEntry]: the header of a record in a ring. *)
Record UncompressedLogEntry := mkEntry {
  fmtId : Z;
  timestamp : Z;
  entrySize : Z;
  argMetaBytes : Z
}.

(** A registered StagingBuffer as the drainer sees it: its ring positions,
    the record header found at each offset of [storage], and the
    [shouldDeallocate] flag set by the owner's exit hook. *)
Record SBuf := mkSBuf {
  sb_ring : StagingBuffer;
  sb_mem : Z -> UncompressedLogEntry;
  shouldDeallocate : bool
}.

Definition set_sb_ring (sb : SBuf) (r : StagingBuffer) : SBuf :=
  mkSBuf r (sb_mem sb) (shouldDeallocate sb).

(** Modelled from the spec: [StagingBuffer::consume] (declared in
    FastLogger.h, which is not under src/) "releases the first [k] bytes of
    the last peek back to the producer by advancing [consumerPos]". *)
Definition consume (nbytes : Z) (st : StagingBuffer) : StagingBuffer :=
  set_consumerPos st (consumerPos st + nbytes).

(** Modelled from the spec: [StagingBuffer::checkCanDelete] (FastLogger.h)
    is "true iff [shouldDeallocate] is set and the ring is empty", empty
    meaning [producerPos == consumerPos]. *)
Definition checkCanDelete (sb : SBuf) : bool :=
  shouldDeallocate sb && (producerPos (sb_ring sb) =? consumerPos (sb_ring sb)).

(** [v[n] = x] on a [std::vector] (only used with [n] in range). *)
Fixpoint replace_nth {A} (l : list A) (n : nat) (x : A) : list A :=
  match l, n with
  | [], _ => []
  | _ :: l', O => x :: l'
  | y :: l', S n' => y :: replace_nth l' n' x
  end.

(** [v.erase(v.begin() + n)] (only used with [n] in range). *)
Fixpoint erase_nth {A} (l : list A) (n : nat) : list A :=
  match l, n with
  | [], _ => []
  | _ :: l', O => l'
  | y :: l', S n' => y :: erase_nth l' n'
  end.

Inductive scan_event :=
| CompressCall (re : UncompressedLogEntry) (roomAtCheck metaBytes roomAtCall : Z)
| Destroyed (idx : nat) (readableBytes : Z) (canDelete : bool).

(** The locals of the scan in [compressionThreadMain] (lines 268-370) and
    the drainer state it updates.  [out] is an offset from
    [compressingBuffer]; [compressing] is [Some (peekPosition,
    readableBytes, readableBytesStart)] while the inner [while] loop over
    the entries of [threadBuffers[i]] runs; [scan_log] records each call of
    a per-format compressor and each destroyed StagingBuffer. *)
Record Scan := mkScan {
  threadBuffers : list SBuf;
  i : nat;
  lastStagingBufferChecked : nat;
  out : Z;
  lastFmtId : Z;
  lastTimestamp : Z;
  eventsProcessed : Z;
  totalBytesRead : Z;
  outputBufferFull : bool;
  workFound : bool;
  compressing : option (Z * Z * Z);
  scan_log : list scan_event
}.

Definition set_threadBuffers (s : Scan) (v : list SBuf) : Scan :=
  mkScan v (i s) (lastStagingBufferChecked s) (out s) (lastFmtId s) (lastTimestamp s) (eventsProcessed s) (totalBytesRead s) (outputBufferFull s) (workFound s) (compressing s) (scan_log s).
Definition set_i (s : Scan) (v : nat) : Scan :=
  mkScan (threadBuffers s) v (lastStagingBufferChecked s) (out s) (lastFmtId s) (lastTimestamp s) (eventsProcessed s) (totalBytesRead s) (outputBufferFull s) (workFound s) (compressing s) (scan_log s).
Definition set_lastStagingBufferChecked (s : Scan) (v : nat) : Scan :=
  mkScan (threadBuffers s) (i s) v (out s) (lastFmtId s) (lastTimestamp s) (eventsProcessed s) (totalBytesRead s) (outputBufferFull s) (workFound s) (compressing s) (scan_log s).
Definition set_out (s : Scan) (v : Z) : Scan :=
  mkScan (threadBuffers s) (i s) (lastStagingBufferChecked s) v (lastFmtId s) (lastTimestamp s) (eventsProcessed s) (totalBytesRead s) (outputBufferFull s) (workFound s) (compressing s) (scan_log s).
Definition set_lastFmtId (s : Scan) (v : Z) : Scan :=
  mkScan (threadBuffers s) (i s) (lastStagingBufferChecked s) (out s) v (lastTimestamp s) (eventsProcessed s) (totalBytesRead s) (outputBufferFull s) (workFound s) (compressing s) (scan_log s).
Definition set_lastTimestamp (s : Scan) (v : Z) : Scan :=
  mkScan (threadBuffers s) (i s) (lastStagingBufferChecked s) (out s) (lastFmtId s) v (eventsProcessed s) (totalBytesRead s) (outputBufferFull s) (workFound s) (compressing s) (scan_log s).
Definition set_eventsProcessed (s : Scan) (v : Z) : Scan :=
  mkScan (threadBuffers s) (i s) (lastStagingBufferChecked s) (out s) (lastFmtId s) (lastTimestamp s) v (totalBytesRead s) (outputBufferFull s) (workFound s) (compressing s) (scan_log s).
Definition set_totalBytesRead (s : Scan) (v : Z) : Scan :=
  mkScan (threadBuffers s) (i s) (lastStagingBufferChecked s) (out s) (lastFmtId s) (lastTimestamp s) (eventsProcessed s) v (outputBufferFull s) (workFound s) (compressing s) (scan_log s).
Definition set_outputBufferFull (s : Scan) (v : bool) : Scan :=
  mkScan (threadBuffers s) (i s) (lastStagingBufferChecked s) (out s) (lastFmtId s) (lastTimestamp s) (eventsProcessed s) (totalBytesRead s) v (workFound s) (compressing s) (scan_log s).
Definition set_workFound (s : Scan) (v : bool) : Scan :=
  mkScan (threadBuffers s) (i s) (lastStagingBufferChecked s) (out s) (lastFmtId s) (lastTimestamp s) (eventsProcessed s) (totalBytesRead s) (outputBufferFull s) v (compressing s) (scan_log s).
Definition set_compressing (s : Scan) (v : option (Z * Z * Z)) : Scan :=
  mkScan (threadBuffers s) (i s) (lastStagingBufferChecked s) (out s) (lastFmtId s) (lastTimestamp s) (eventsProcessed s) (totalBytesRead s) (outputBufferFull s) (workFound s) v (scan_log s).
Definition set_scan_log (s : Scan) (v : list scan_event) : Scan :=
  mkScan (threadBuffers s) (i s) (lastStagingBufferChecked s) (out s) (lastFmtId s) (lastTimestamp s) (eventsProcessed s) (totalBytesRead s) (outputBufferFull s) (workFound s) (compressing s) v.

(** Outcome of one iteration of the scan: go on, leave the scan loop, or
    index [threadBuffers] out of range (undefined behaviour in C++). *)
Inductive scan_step :=
| Continue (s : Scan)
| Break (s : Scan)
| Undefined (s : Scan).

Section Drainer.

Variable OUTPUT_BUFFER_SIZE : Z.
(** The collaborators generated into BufferStuffer.h: the number of bytes
    [BufferUtils::compressMetadata(re, &out, lastTimestamp, lastFmtId)]
    writes, and the return value of [compressFnArray[fmtId](re, out)]. *)
Variable compressMetadata : UncompressedLogEntry -> Z -> Z -> Z.
Variable compressFnArray : Z -> UncompressedLogEntry -> Z.
(** [compressionThreadShouldExit] as read during this scan. *)
Variable compressionThreadShouldExit : bool.

(** Lines 356-366: [i = (i + 1) % threadBuffers.size()] and the end-of-pass
    test. *)
Definition advance (s : Scan) : scan_step :=
  let i' := Nat.modulo (S (i s)) (length (threadBuffers s)) in
  let s := set_i s i' in
  if Nat.eqb i' (lastStagingBufferChecked s) then
    if negb (workFound s) then Break s
    else Continue (set_workFound s false)
  else Continue s.

(** One iteration of the scan loop (lines 287-367) or, while [compressing]
    is set, of the inner loop over the peeked entries (lines 303-337).  The
    two [assert]s of the inner loop are debug-build checks and are left
    out. *)
Definition scan_step_fn (s : Scan) : scan_step :=
  match compressing s with
  | None =>
      if negb compressionThreadShouldExit && negb (outputBufferFull s)
         && negb (Nat.eqb (length (threadBuffers s)) 0) then
        match nth_error (threadBuffers s) (i s) with
        | None => Undefined s
        | Some sb0 =>
            let '(peekPosition, readableBytes, ring) := peek (sb_ring sb0) in
            let sb := set_sb_ring sb0 ring in
            let s := set_threadBuffers s (replace_nth (threadBuffers s) (i s) sb) in
            if readableBytes >? 0 then
              Continue (set_compressing (set_workFound s true)
                          (Some (peekPosition, readableBytes, readableBytes)))
            else if checkCanDelete sb then
              let s := set_threadBuffers s (erase_nth (threadBuffers s) (i s)) in
              let s := set_scan_log s
                         (scan_log s ++ [Destroyed (i s) readableBytes true]) in
              if Nat.eqb (i s) (length (threadBuffers s)) then
                let s := if Nat.eqb (lastStagingBufferChecked s) (i s)
                         then set_lastStagingBufferChecked s 0%nat else s in
                Continue (set_i s 0%nat)
              else Continue s
            else advance s
        end
      else Break s
  | Some (peekPosition, readableBytes, readableBytesStart) =>
      let finish (s : Scan) :=
        advance (set_compressing
                   (set_totalBytesRead s
                      (totalBytesRead s + (readableBytesStart - readableBytes)))
                   None) in
      if readableBytes >? 0 then
        match nth_error (threadBuffers s) (i s) with
        | None => Undefined s
        | Some sb =>
            let re := sb_mem sb peekPosition in
            if entrySize re + argMetaBytes re >? OUTPUT_BUFFER_SIZE - out s then
              finish (set_outputBufferFull (set_lastStagingBufferChecked s (i s)) true)
            else
              let s1 := set_eventsProcessed s (eventsProcessed s + 1) in
              let metaBytes := compressMetadata re (lastTimestamp s1) (lastFmtId s1) in
              let s1 := set_out s1 (out s1 + metaBytes) in
              let s1 := set_lastFmtId s1 (fmtId re) in
              let s1 := set_lastTimestamp s1 (timestamp re) in
              let bytesOut := compressFnArray (fmtId re) re in
              let call := CompressCall re (OUTPUT_BUFFER_SIZE - out s) metaBytes
                                      (OUTPUT_BUFFER_SIZE - out s1) in
              let s1 := set_scan_log s1 (scan_log s1 ++ [call]) in
              let s1 := set_out s1 (out s1 + bytesOut) in
              let s1 := set_threadBuffers s1
                          (replace_nth (threadBuffers s1) (i s1)
                             (set_sb_ring sb (consume (entrySize re) (sb_ring sb)))) in
              Continue (set_compressing s1
                          (Some (peekPosition + entrySize re,
                                 readableBytes - entrySize re, readableBytesStart)))
        end
      else finish s
  end.

Inductive run_status := Finished | UB | OutOfFuel.

(** The scan loop run for at most [fuel] iterations. *)
Fixpoint scan (fuel : nat) (s : Scan) : run_status * Scan :=
  match fuel with
  | O => (OutOfFuel, s)
  | S fuel' =>
      match scan_step_fn s with
      | Continue s' => scan fuel' s'
      | Break s' => (Finished, s')
      | Undefined s' => (UB, s')
      end
  end.

End Drainer.

(** The state at the top of the scan (lines 269-283): [out] at the start of
    [compressingBuffer], [i = lastStagingBufferChecked]. *)
Definition scan_start (threadBuffers : list SBuf) (lastStagingBufferChecked : nat)
    (lastFmtId lastTimestamp eventsProcessed totalBytesRead : Z) : Scan :=
  mkScan threadBuffers lastStagingBufferChecked lastStagingBufferChecked 0
         lastFmtId lastTimestamp eventsProcessed totalBytesRead false false None [].

(** ** Drainer: the outer loop of [compressionThreadMain] and [sync] *)

(** What the outer loop does, in order.  [ScanDone n]: a scan (modelled by
    [scan] above) ended with [out - compressingBuffer = n];
    [SyncChecked b]: [syncRequested] read as [b] under [condMutex]. *)
Inductive drain_event :=
| ScanDone (bytesProduced : Z)
| SyncChecked (syncRequested : bool)
| ClearSync
| NotifyHintQueueEmptied
| WaitWorkAdded
| WriteBatch.

(** What the drainer observes in one iteration of its outer loop:
    [compressionThreadShouldExit] at the loop head, the bytes its scan put
    into [compressingBuffer], and whether a concurrent [sync] set
    [syncRequested] before the drainer took [condMutex]. *)
Record drain_obs := mkObs {
  obs_exit : bool;
  obs_scan_bytes : Z;
  obs_sync_call : bool
}.

(** Lines 267-459, one iteration per observation. *)
Fixpoint compressionThreadMain (env : list drain_obs) (syncRequested : bool)
    : list drain_event :=
  match env with
  | [] => []
  | o :: env' =>
      if obs_exit o then []
      else
        let syncRequested := syncRequested || obs_sync_call o in
        ScanDone (obs_scan_bytes o) ::
        (if obs_scan_bytes o =? 0 then
           SyncChecked syncRequested ::
           (if syncRequested then ClearSync :: compressionThreadMain env' false
            else NotifyHintQueueEmptied :: WaitWorkAdded
                   :: compressionThreadMain env' syncRequested)
         else WriteBatch :: compressionThreadMain env' syncRequested)
  end.

Inductive sync_event := SetSyncRequested | NotifyWorkAdded | WaitHintQueueEmptied.

(** [FastLogger::sync] (lines 553-560): the new value of [syncRequested]
    and the actions taken under [condMutex]; the call returns when the last
    one, the wait, returns. *)
Definition sync (syncRequested : bool) : bool * list sync_event :=
  let syncRequested := true in
  (syncRequested, [SetSyncRequested; NotifyWorkAdded; WaitHintQueueEmptied]).

(** ** Direct-I/O padding (lines 394-403) *)

(** [memset(p, 0, n)] on a scratch buffer given by its byte at each offset. *)
Definition memset0 (buf : Z -> Z) (p n : Z) : Z -> Z :=
  fun k => if (p <=? k) && (k <? p + n) then 0 else buf k.

(** [out] is the offset of the output cursor in [compressingBuffer];
    [O_DIRECT_set] is [(FILE_PARAMS & O_DIRECT) != 0].  Returns the buffer,
    [bytesToWrite] and [padBytesWritten]. *)
Definition pad_for_direct_io (O_DIRECT_set : bool) (compressingBuffer : Z -> Z)
    (out padBytesWritten : Z) : (Z -> Z) * Z * Z :=
  let bytesToWrite := out in
  if O_DIRECT_set then
    let bytesOver := Z.rem bytesToWrite 512 in
    if negb (bytesOver =? 0) then
      (memset0 compressingBuffer out bytesOver,
       bytesToWrite + 512 - bytesOver,
       padBytesWritten + (512 - bytesOver))
    else (compressingBuffer, bytesToWrite, padBytesWritten)
  else (compressingBuffer, bytesToWrite, padBytesWritten).

(** ** Initialisation and [setLogFile] *)

Inductive init_outcome :=
| InitExit (diagnostic : string)
| InitRunning (outputFd : Z).

(** [FastLogger::FastLogger] (lines 62-90), given the value returned by
    [open] and the error codes returned by the two [posix_memalign] calls. *)
Definition FastLogger_ctor (openResult memalignErr1 memalignErr2 : Z) : init_outcome :=
  let outputFd := openResult in
  if outputFd =? 0 then
    InitExit "FastLogger could not open the default file location for the log file"
  else if negb (memalignErr1 =? 0) then
    InitExit "The FastLogger system was not able to allocate enough memory"
  else if negb (memalignErr2 =? 0) then
    InitExit "The FastLogger system was not able to allocate enough memory"
  else InitRunning outputFd.

Inductive setlog_step :=
| SyncCall
| RequestExit
| JoinThread
| CloseFd (fd : Z)
| SetOutputFd (fd : Z)
| RelaunchThread.

Inductive setlog_outcome :=
| Throws (what : string)
| Switched (steps : list setlog_step).

(** [FastLogger::setLogFile_internal] (lines 487-523), given the results of
    [access(filename, F_OK)], [access(filename, R_OK | W_OK)] and [open],
    and the current [outputFd].  A failure carries the message prefix (the
    source appends the file name). *)
Definition setLogFile_internal (accessExists accessRW openResult outputFd : Z)
    : setlog_outcome :=
  if (accessExists =? 0) && negb (accessRW =? 0) then
    Throws "Unable to read/write from file: "
  else
    let newFd := openResult in
    if newFd =? 0 then Throws "Unable to create file: "
    else
      Switched ([SyncCall; RequestExit; JoinThread]
                ++ (if outputFd >? 0 then [CloseFd outputFd] else [])
                ++ [SetOutputFd newFd; RelaunchThread]).

(** ** Drainer: output of a batch and [waitForAIO] *)

(** [EINPROGRESS] on Linux. *)
Definition EINPROGRESS : Z := 115.

(** The I/O calls of the drainer; [IoReport] is a diagnostic printed to
    stderr ([perror] or [fprintf(stderr, ...)]). *)
Inductive io_event :=
| AioSuspend
| AioReturn
| IoReport
| AioWrite (fd buf nbytes : Z)
| Write (fd buf nbytes : Z).

(** The drainer fields the output code uses: the two scratch buffers
    (by address), the AIO control block fields it sets, the counters, and
    the I/O calls made so far. *)
Record IoState := mkIo {
  compressingBuffer : Z;
  outputDoubleBuffer : Z;
  hasOutstandingOperation : bool;
  aio_fildes : Z;
  aio_buf : Z;
  aio_nbytes : Z;
  totalBytesWritten : Z;
  numAioWritesCompleted : Z;
  io_log : list io_event
}.

Definition set_compressingBuffer (s : IoState) (v : Z) : IoState :=
  mkIo v (outputDoubleBuffer s) (hasOutstandingOperation s) (aio_fildes s) (aio_buf s) (aio_nbytes s) (totalBytesWritten s) (numAioWritesCompleted s) (io_log s).
Definition set_outputDoubleBuffer (s : IoState) (v : Z) : IoState :=
  mkIo (compressingBuffer s) v (hasOutstandingOperation s) (aio_fildes s) (aio_buf s) (aio_nbytes s) (totalBytesWritten s) (numAioWritesCompleted s) (io_log s).
Definition set_hasOutstandingOperation (s : IoState) (v : bool) : IoState :=
  mkIo (compressingBuffer s) (outputDoubleBuffer s) v (aio_fildes s) (aio_buf s) (aio_nbytes s) (totalBytesWritten s) (numAioWritesCompleted s) (io_log s).
Definition set_aio_fildes (s : IoState) (v : Z) : IoState :=
  mkIo (compressingBuffer s) (outputDoubleBuffer s) (hasOutstandingOperation s) v (aio_buf s) (aio_nbytes s) (totalBytesWritten s) (numAioWritesCompleted s) (io_log s).
Definition set_aio_buf (s : IoState) (v : Z) : IoState :=
  mkIo (compressingBuffer s) (outputDoubleBuffer s) (hasOutstandingOperation s) (aio_fildes s) v (aio_nbytes s) (totalBytesWritten s) (numAioWritesCompleted s) (io_log s).
Definition set_aio_nbytes (s : IoState) (v : Z) : IoState :=
  mkIo (compressingBuffer s) (outputDoubleBuffer s) (hasOutstandingOperation s) (aio_fildes s) (aio_buf s) v (totalBytesWritten s) (numAioWritesCompleted s) (io_log s).
Definition set_totalBytesWritten (s : IoState) (v : Z) : IoState :=
  mkIo (compressingBuffer s) (outputDoubleBuffer s) (hasOutstandingOperation s) (aio_fildes s) (aio_buf s) (aio_nbytes s) v (numAioWritesCompleted s) (io_log s).
Definition set_numAioWritesCompleted (s : IoState) (v : Z) : IoState :=
  mkIo (compressingBuffer s) (outputDoubleBuffer s) (hasOutstandingOperation s) (aio_fildes s) (aio_buf s) (aio_nbytes s) (totalBytesWritten s) v (io_log s).
Definition set_io_log (s : IoState) (v : list io_event) : IoState :=
  mkIo (compressingBuffer s) (outputDoubleBuffer s) (hasOutstandingOperation s) (aio_fildes s) (aio_buf s) (aio_nbytes s) (totalBytesWritten s) (numAioWritesCompleted s) v.

Definition log_io (s : IoState) (e : io_event) : IoState :=
  set_io_log s (io_log s ++ [e]).

(** Results of the POSIX AIO calls made while reaping an operation: the
    first [aio_error], [aio_suspend], the second [aio_error] and
    [aio_return]. *)
Record aio_obs := mkAioObs {
  aio_error_first : Z;
  aio_suspend_result : Z;
  aio_error_after : Z;
  aio_return_value : Z
}.

(** [FastLogger::waitForAIO] (lines 220-242).  Lines 407-431 of
    [compressionThreadMain] perform the same calls (they also account
    cycles, which are not modelled). *)
Definition waitForAIO (o : aio_obs) (s : IoState) : IoState :=
  if hasOutstandingOperation s then
    let s := if aio_error_first o =? EINPROGRESS then
               let s := log_io s AioSuspend in
               if negb (aio_suspend_result o =? 0) then log_io s IoReport else s
             else s in
    let err := aio_error_after o in
    let s := log_io s AioReturn in
    let ret := aio_return_value o in
    let s := if negb (err =? 0) then log_io s IoReport
             else if ret <? 0 then log_io s IoReport else s in
    let s := set_numAioWritesCompleted s (numAioWritesCompleted s + 1) in
    set_hasOutstandingOperation s false
  else s.

(** Results of the calls made to output one batch. *)
Record batch_obs := mkBatchObs {
  batch_reap : aio_obs;
  aio_write_result : Z;
  write_result : Z
}.

(** Lines 405-450: output [bytesToWrite] bytes of [compressingBuffer],
    asynchronously (then swapping the two buffers) or with [write]. *)
Definition output_batch (USE_AIO : bool) (outputFd bytesToWrite : Z)
    (o : batch_obs) (s : IoState) : IoState :=
  if USE_AIO then
    let s := waitForAIO (batch_reap o) s in
    let s := set_aio_fildes s outputFd in
    let s := set_aio_buf s (compressingBuffer s) in
    let s := set_aio_nbytes s bytesToWrite in
    let s := set_totalBytesWritten s (totalBytesWritten s + bytesToWrite) in
    let s := log_io s (AioWrite (aio_fildes s) (aio_buf s) (aio_nbytes s)) in
    let s := if aio_write_result o =? -1 then log_io s IoReport else s in
    let s := set_hasOutstandingOperation s true in
    let tmp := compressingBuffer s in
    let s := set_compressingBuffer s (outputDoubleBuffer s) in
    set_outputDoubleBuffer s tmp
  else
    let s := log_io s (Write outputFd (compressingBuffer s) bytesToWrite) in
    if negb (bytesToWrite =? write_result o) then log_io s IoReport else s.

(** The batches the drainer outputs, in order, each with its size. *)
Fixpoint output_batches (USE_AIO : bool) (outputFd : Z)
    (batches : list (Z * batch_obs)) (s : IoState) : IoState :=
  match batches with
  | [] => s
  | (bytesToWrite, o) :: batches' =>
      output_batches USE_AIO outputFd batches' (output_batch USE_AIO outputFd bytesToWrite o s)
  end.

(** Lines 461-477, after the outer loop: reap the outstanding operation;
    [err] is the [aio_error] value that ends the busy wait and [ret] the
    value of [aio_return]. *)
Definition reap_at_exit (err ret : Z) (s : IoState) : IoState :=
  if hasOutstandingOperation s then
    let s := log_io s AioReturn in
    let s := if negb (err =? 0) then log_io s IoReport
             else if ret <? 0 then log_io s IoReport else s in
    let s := set_numAioWritesCompleted s (numAioWritesCompleted s + 1) in
    set_hasOutstandingOperation s false
  else s.

(** ** Concrete configurations used by the theorems below *)

(** Collaborators for concrete runs: a metadata encoding of 3 bytes and a
    per-format compressor that copies the record. *)
Definition meta3 (re : UncompressedLogEntry) (lastTimestamp lastFmtId : Z) : Z := 3.
Definition copy_fn (fmt : Z) (re : UncompressedLogEntry) : Z := entrySize re.

Definition ring_of (p c : Z) : StagingBuffer := mkSB p c 0 0.
Definition entry32 : UncompressedLogEntry := mkEntry 7 1000 32 0.
Definition sb_entries32 (r : StagingBuffer) (exited : bool) : SBuf :=
  mkSBuf r (fun _ => entry32) exited.

(** A registry [A; B; C] at the start of a scan that resumes at index 2
    (where the previous batch stopped with [outputBufferFull]): A's thread
    has exited and its ring is empty, B is idle, C holds one 32-byte
    record. *)
Definition erase_start : Scan :=
  scan_start [sb_entries32 (ring_of 0 0) true; sb_entries32 (ring_of 0 0) false;
              sb_entries32 (ring_of 32 0) false] 2 0 0 0 0.

(** One buffer holding a single record whose [entrySize] is the whole
    scratch buffer (1 MiB). *)
Definition big_entry : UncompressedLogEntry := mkEntry 7 1000 1048576 0.
Definition big_start : Scan :=
  scan_start [mkSBuf (ring_of 1048576 0) (fun _ => big_entry) false] 0 0 0 0 0.

Definition step_state (r : scan_step) : Scan :=
  match r with Continue s | Break s | Undefined s => s end.

Definition erase_loop : Scan := snd (scan 1048576 meta3 copy_fn false 4 erase_start).

(** What the drainer guarantees at a call of a per-format compressor:
    before the metadata compressor ran, [entrySize + argMetaBytes] bytes
    were left, and the room at the call is that minus the metadata bytes. *)
Definition compress_call_bound (ev : scan_event) : Prop :=
  match ev with
  | CompressCall re roomAtCheck metaBytes roomAtCall =>
      entrySize re + argMetaBytes re <= roomAtCheck /\
      roomAtCall = roomAtCheck - metaBytes
  | Destroyed _ _ _ => True
  end.

(** Quantities read off a scan's log: the number of per-format compressor
    calls, the record bytes they consumed, and the buffers destroyed. *)
Fixpoint compress_calls (log : list scan_event) : Z :=
  match log with
  | [] => 0
  | CompressCall _ _ _ _ :: log' => 1 + compress_calls log'
  | Destroyed _ _ _ :: log' => compress_calls log'
  end.

Fixpoint bytes_compressed (log : list scan_event) : Z :=
  match log with
  | [] => 0
  | CompressCall re _ _ _ :: log' => entrySize re + bytes_compressed log'
  | Destroyed _ _ _ :: log' => bytes_compressed log'
  end.

Fixpoint buffers_destroyed (log : list scan_event) : nat :=
  match log with
  | [] => 0
  | CompressCall _ _ _ _ :: log' => buffers_destroyed log'
  | Destroyed _ _ _ :: log' => S (buffers_destroyed log')
  end.

(** Bytes of the current peek already consumed but not yet added to
    [totalBytesRead] (lines 330 and 334). *)
Definition pending_read (s : Scan) : Z :=
  match compressing s with
  | Some (_, readableBytes, readableBytesStart) => readableBytesStart - readableBytes
  | None => 0
  end.

(** The registered buffers whose owner thread is still alive. *)
Definition live_count (l : list SBuf) : nat :=
  length (filter (fun sb => negb (shouldDeallocate sb)) l).

(** The record headers of a buffer hold nonnegative sizes. *)
Definition sbuf_sizes_ok (sb : SBuf) : Prop :=
  forall p, 0 <= entrySize (sb_mem sb p) /\ 0 <= argMetaBytes (sb_mem sb p).

(** Total size of a list of batches. *)
Definition batch_bytes (batches : list (Z * batch_obs)) : Z :=
  fold_right (fun b acc => fst b + acc) 0 batches.

(** [1] while an AIO write is outstanding. *)
Definition outstanding (s : IoState) : Z :=
  if hasOutstandingOperation s then 1 else 0.


(** The calls made for one batch in synchronous mode. *)
Definition sync_batch_events (fd buf : Z) (b : Z * batch_obs) : list io_event :=
  Write fd buf (fst b) :: (if fst b =? write_result (snd b) then [] else [IoReport]).


(** ** Theorems *)

Lemma to_u64_small (z : Z) : 0 <= z < 2 ^ 64 -> to_u64 z = z.
Proof. intros H. unfold to_u64. apply Z.mod_small; exact H. Qed.

(** C1: one iteration of the slow path of [reserveSpaceInternal] is the
    spec's algorithm: load [consumerPos] into [c]; when [c <= producerPos]
    cache the tail run and return [producerPos] if it strictly exceeds
    [nbytes], otherwise publish [endOfRecordedSpace = producerPos] and wrap
    [producerPos] to [storage]; then recompute [minFreeSpace = c -
    producerPos], return [nullptr] in non-blocking mode if that is still
    insufficient, and otherwise go back to the loop head, which re-reads
    [consumerPos] (or returns [producerPos] once the cache suffices). *)
Theorem reserve_slow_path_follows_spec (SZ c nbytes : Z) (reads : list Z)
    (blocking : bool) (st : StagingBuffer) :
  SZ < 2 ^ 64 -> 0 <= producerPos st <= SZ -> 0 <= c <= SZ ->
  minFreeSpace st <= nbytes ->
  reserveSpaceInternal SZ (c :: reads) nbytes blocking st =
  match reserve_slow_iteration_spec SZ c nbytes blocking st with
  | SpecReturn r st' => Reserved r st'
  | SpecLoop st' => reserveSpaceInternal SZ reads nbytes blocking st'
  end.
Proof.
  intros Hsz Hp Hc Hmin. destruct st as [p c0 e m]; cbn in *.
  rewrite (proj2 (Z.leb_le _ _) Hmin).
  unfold reserve_slow_iteration_spec; cbn.
  destruct (c <=? p) eqn:Hcp; cbn.
  - rewrite (to_u64_small (SZ - p)) by lia.
    destruct (SZ - p >? nbytes) eqn:Ht; cbn; [reflexivity |].
    rewrite (to_u64_small (c - 0)) by lia.
    destruct (negb blocking && (c - 0 <=? nbytes)); reflexivity.
  - apply Z.leb_gt in Hcp. rewrite (to_u64_small (c - p)) by lia.
    destruct (negb blocking && (c - p <=? nbytes)); reflexivity.
Qed.

Lemma reserve_slow_path_follows_spec_witness :
  (4096 < 2 ^ 64 /\ 0 <= 3600 <= 4096 /\ 0 <= 0 <= 4096 /\ 496 <= 600) /\
  reserveSpaceInternal 4096 [0; 0] 600 true (mkSB 3600 0 0 496) =
  match reserve_slow_iteration_spec 4096 0 600 true (mkSB 3600 0 0 496) with
  | SpecReturn r st' => Reserved r st'
  | SpecLoop st' => reserveSpaceInternal 4096 [0] 600 true st'
  end.
Proof.
  split; [lia |].
  apply (reserve_slow_path_follows_spec 4096 0 600 [0] true (mkSB 3600 0 0 496));
    cbn; lia.
Defined.

(** [peek] finds nothing to read whenever the two positions are equal. *)
Lemma peek_equal_positions_empty (st : StagingBuffer) :
  producerPos st = consumerPos st ->
  snd (fst (peek st)) = 0 /\ snd (peek st) = st.
Proof.
  intros H. unfold peek. rewrite H, Z.ltb_irrefl, Z.sub_diag. split; reflexivity.
Qed.

(** A failed non-blocking reservation leaves [consumerPos] alone and
    changes the producer side only by the wrap. *)
Lemma reserve_nullptr_frame (SZ nbytes : Z) (reads : list Z) (st st' : StagingBuffer) :
  reserveSpaceInternal SZ reads nbytes false st = Reserved None st' ->
  consumerPos st' = consumerPos st /\
  ((producerPos st' = producerPos st /\ endOfRecordedSpace st' = endOfRecordedSpace st)
   \/ (producerPos st' = 0 /\ endOfRecordedSpace st' = producerPos st)).
Proof.
  destruct reads as [|c reads]; cbn; destruct (minFreeSpace st <=? nbytes);
    try discriminate.
  assert (Hrec : forall st2, (minFreeSpace st2 <=? nbytes) = false ->
    reserveSpaceInternal SZ reads nbytes false st2 = Reserved (Some (producerPos st2)) st2)
    by (intros st2 E; destruct reads; cbn; rewrite E; reflexivity).
  destruct (c <=? producerPos st); cbn.
  - destruct (to_u64 (SZ - producerPos st) >? nbytes); cbn; [discriminate|].
    destruct (to_u64 (c - 0) <=? nbytes) eqn:E; cbn.
    + intros H; injection H as <-; cbn; auto.
    + rewrite Hrec by exact E. discriminate.
  - destruct (to_u64 (c - producerPos st) <=? nbytes) eqn:E; cbn.
    + intros H; injection H as <-; cbn; auto.
    + rewrite Hrec by exact E. discriminate.
Qed.

(** C2 (code defect): when the consumer sits at [storage] and the tail run
    is too short, the producer wraps [producerPos] onto [consumerPos]
    although 3600 committed bytes are unread (the spec's wrap-around
    scenario with [STAGING_BUFFER_SIZE = 4096] and 600-byte entries): the
    blocking reservation then returns [storage], the first unread byte, and
    [peek] reports the ring empty. *)
Theorem reserve_wrap_onto_consumer_blocking :
  snd (fst (peek (mkSB 3600 0 0 496))) = 3600 /\
  reserveSpaceInternal 4096 [0; 0] 600 true (mkSB 3600 0 0 496)
    = Reserved (Some 0) (mkSB 0 0 3600 4096) /\
  snd (fst (peek (mkSB 0 0 3600 4096))) = 0.
Proof. vm_compute. repeat split. Qed.

(** C3: [peek] returns the contiguous readable run at [consumerPos]; when
    the producer has wrapped and nothing is left before
    [endOfRecordedSpace], it moves [consumerPos] to [storage] and returns
    the post-wrap run [[storage, producerPos)]. *)
Theorem peek_wraps_or_returns_run (st : StagingBuffer) :
  0 <= producerPos st < 2 ^ 64 -> 0 <= consumerPos st ->
  endOfRecordedSpace st < 2 ^ 64 ->
  (producerPos st < consumerPos st -> consumerPos st <= endOfRecordedSpace st) ->
  peek st =
  if (producerPos st <? consumerPos st) && (endOfRecordedSpace st =? consumerPos st)
  then (0, producerPos st, set_consumerPos st 0)
  else (consumerPos st,
        (if producerPos st <? consumerPos st then endOfRecordedSpace st
         else producerPos st) - consumerPos st,
        st).
Proof.
  intros Hp Hc He Hw. destruct st as [p c e m]; cbn in *. unfold peek; cbn.
  destruct (p <? c) eqn:Hpc; cbn.
  - apply Z.ltb_lt in Hpc. specialize (Hw Hpc).
    rewrite (to_u64_small (e - c)) by lia.
    destruct (e =? c) eqn:Hec.
    + apply Z.eqb_eq in Hec. subst e. rewrite Z.sub_diag; cbn.
      rewrite (to_u64_small (p - 0)) by lia. rewrite Z.sub_0_r. reflexivity.
    + apply Z.eqb_neq in Hec.
      replace (e - c >? 0) with true by (symmetry; apply Z.gtb_lt; lia).
      reflexivity.
  - apply Z.ltb_ge in Hpc. rewrite (to_u64_small (p - c)) by lia. reflexivity.
Qed.

Lemma peek_wraps_or_returns_run_witness :
  (0 <= 100 < 2 ^ 64 /\ 0 <= 3000 /\ 3000 < 2 ^ 64 /\ (100 < 3000 -> 3000 <= 3000)) /\
  peek (mkSB 100 3000 3000 0) = (0, 100, mkSB 100 0 3000 0).
Proof.
  split; [lia |].
  apply (peek_wraps_or_returns_run (mkSB 100 3000 3000 0)); cbn; lia.
Defined.

(** C10 (code defect): a failed non-blocking reservation, with the
    consumer at [storage], wraps [producerPos] onto [consumerPos], after
    which the 3600 committed but unread bytes are no longer visible to
    [peek]. *)
Theorem reserve_nullptr_hides_committed_bytes :
  snd (fst (peek (mkSB 3600 0 0 496))) = 3600 /\
  reserveSpaceInternal 4096 [0] 600 false (mkSB 3600 0 0 496)
    = Reserved None (mkSB 0 0 3600 0) /\
  snd (fst (peek (mkSB 0 0 3600 0))) = 0.
Proof. vm_compute. repeat split. Qed.

Lemma scan_plus OBS meta fns ex m n s :
  scan OBS meta fns ex (m + n) s =
  match scan OBS meta fns ex m s with
  | (OutOfFuel, s') => scan OBS meta fns ex n s'
  | r => r
  end.
Proof.
  revert s; induction m as [|m IH]; intros s; [reflexivity|].
  cbn [Nat.add scan]. destruct (scan_step_fn OBS meta fns ex s); [apply IH|reflexivity|reflexivity].
Qed.

Lemma erase_loop_cycle :
  scan 1048576 meta3 copy_fn false 2 erase_loop = (OutOfFuel, erase_loop).
Proof. vm_compute. reflexivity. Qed.

Lemma erase_loop_state :
  scan 1048576 meta3 copy_fn false 4 erase_start = (OutOfFuel, erase_loop) /\
  lastStagingBufferChecked erase_loop = 2%nat /\
  length (threadBuffers erase_loop) = 2%nat /\ i erase_loop = 0%nat.
Proof. vm_compute. repeat split. Qed.

Lemma erase_loop_spins (n : nat) :
  fst (scan 1048576 meta3 copy_fn false n erase_loop) = OutOfFuel /\
  fst (scan 1048576 meta3 copy_fn false (S n) erase_loop) = OutOfFuel.
Proof.
  induction n as [|n [IH1 IH2]].
  - split; [reflexivity|]. vm_compute. reflexivity.
  - split; [exact IH2|].
    change (S (S n)) with (2 + n)%nat. rewrite scan_plus, erase_loop_cycle. exact IH1.
Qed.

(** C9 (code defect): on the registry [erase_start] the scan drains C,
    wraps to index 0, destroys A (empty ring, owner exited) and erases it;
    [i] stays valid but [lastStagingBufferChecked] stays 2 while only two
    buffers remain, so the end-of-pass test [i == lastStagingBufferChecked]
    never holds again and the scan loop never ends (it spins holding
    [bufferMutex]). *)
Theorem scan_erase_leaves_lastStagingBufferChecked_invalid :
  scan_log erase_loop = [CompressCall entry32 1048576 3 1048573; Destroyed 0 0 true] /\
  lastStagingBufferChecked erase_loop = 2%nat /\
  length (threadBuffers erase_loop) = 2%nat /\
  (forall fuel, fst (scan 1048576 meta3 copy_fn false fuel erase_start) = OutOfFuel).
Proof.
  destruct erase_loop_state as [Hrun [Hlast [Hlen _]]].
  split; [vm_compute; reflexivity|]. split; [exact Hlast|]. split; [exact Hlen|].
  intros fuel.
  destruct fuel as [|[|[|[|n]]]]; [vm_compute; reflexivity ..|].
  change (S (S (S (S n)))) with (4 + n)%nat.
  rewrite scan_plus, Hrun. exact (proj1 (erase_loop_spins n)).
Qed.

Lemma advance_log (s : Scan) : scan_log (step_state (advance s)) = scan_log s.
Proof.
  unfold advance. cbn.
  destruct (Nat.eqb _ _); [destruct (negb _)|]; reflexivity.
Qed.

Lemma scan_step_log OBS meta fns ex (s : Scan) :
  Forall compress_call_bound (scan_log s) ->
  Forall compress_call_bound (scan_log (step_state (scan_step_fn OBS meta fns ex s))).
Proof.
  intros H. unfold scan_step_fn.
  destruct (compressing s) as [[[pp rb] rbs]|].
  - destruct (rb >? 0); [|rewrite advance_log; exact H].
    destruct (nth_error (threadBuffers s) (i s)) as [sb|]; [|exact H].
    destruct (entrySize (sb_mem sb pp) + argMetaBytes (sb_mem sb pp) >? OBS - out s) eqn:Hfit.
    + rewrite advance_log. exact H.
    + cbn. apply Forall_app. split; [exact H|]. constructor; [|constructor].
      cbn. rewrite Z.gtb_ltb in Hfit. apply Z.ltb_ge in Hfit. split; lia.
  - destruct (negb ex && negb (outputBufferFull s) && negb (Nat.eqb _ 0)); [|exact H].
    destruct (nth_error (threadBuffers s) (i s)) as [sb|]; [|exact H].
    destruct (peek (sb_ring sb)) as [[pp rb] ring].
    destruct (rb >? 0); [exact H|].
    destruct (checkCanDelete (set_sb_ring sb ring)); [|rewrite advance_log; exact H].
    cbn. destruct (Nat.eqb _ _); [destruct (Nat.eqb _ _)|];
      cbn; apply Forall_app; split; auto; repeat constructor.
Qed.

Lemma scan_log_bound OBS meta fns ex (fuel : nat) (s : Scan) :
  Forall compress_call_bound (scan_log s) ->
  Forall compress_call_bound (scan_log (snd (scan OBS meta fns ex fuel s))).
Proof.
  revert s; induction fuel as [|fuel IH]; intros s H; [exact H|].
  cbn [scan]. pose proof (scan_step_log OBS meta fns ex s H) as H'.
  destruct (scan_step_fn OBS meta fns ex s); cbn in *; auto.
Qed.

(** C6 (as the code does it): in every scan, each call of a per-format
    compressor comes after the check that [entrySize + argMetaBytes] bytes
    were left in the scratch buffer before the metadata compressor ran, so
    at the call at least [entrySize + argMetaBytes] minus the metadata
    bytes just written remain. *)
Theorem scan_compress_calls_within_bound OBS meta fns ex (fuel : nat)
    (threadBuffers : list SBuf) (last : nat) (lastFmtId lastTimestamp ev rd : Z) :
  Forall compress_call_bound
    (scan_log (snd (scan OBS meta fns ex fuel
                     (scan_start threadBuffers last lastFmtId lastTimestamp ev rd)))).
Proof. apply scan_log_bound. constructor. Qed.

(** C6 (as the claim states it, refuted): with a 1 MiB scratch buffer and a
    3-byte metadata encoding, the check passes for a record of
    [entrySize = 1 MiB], and the per-format compressor is then called with
    only [1 MiB - 3] bytes left. *)
Theorem scan_compress_call_room_below_entry_size :
  scan_log (snd (scan 1048576 meta3 copy_fn false 2 big_start))
    = [CompressCall big_entry 1048576 3 1048573] /\
  1048573 < entrySize big_entry + argMetaBytes big_entry.
Proof. vm_compute. split; reflexivity. Qed.

(** Each iteration of the drainer's outer loop starts with a scan. *)
Lemma drainer_trace_head (env : list drain_obs) (sr : bool) :
  nth_error (compressionThreadMain env sr) 0 = None \/
  exists b, nth_error (compressionThreadMain env sr) 0 = Some (ScanDone b).
Proof.
  destruct env as [|o env]; cbn; [left; reflexivity|].
  destruct (obs_exit o); [left; reflexivity|right; eexists; reflexivity].
Qed.

(** Splits one iteration of the outer loop into its three possible event
    blocks. *)
Ltac drainer_iteration o sr :=
  destruct (obs_exit o); [intros; match goal with k : nat |- _ => destruct k end;
                          discriminate|];
  destruct (obs_scan_bytes o =? 0) eqn:Hzero;
  [destruct (sr || obs_sync_call o) eqn:Hsync|].

Lemma drainer_sync_checked_then_cleared (env : list drain_obs) (sr : bool) (k : nat) :
  nth_error (compressionThreadMain env sr) k = Some (SyncChecked true) ->
  nth_error (compressionThreadMain env sr) (S k) = Some ClearSync.
Proof.
  revert sr k; induction env as [|o env IH]; intros sr k; cbn;
    [destruct k; discriminate|].
  drainer_iteration o sr;
    [destruct k as [|[|[|k]]] | destruct k as [|[|[|[|k]]]] | destruct k as [|[|k]]];
    cbn; intros H; try discriminate;
    try reflexivity; apply IH; exact H.
Qed.

Lemma drainer_clear_then_scan (env : list drain_obs) (sr : bool) (k : nat) :
  nth_error (compressionThreadMain env sr) k = Some ClearSync ->
  nth_error (compressionThreadMain env sr) (S k) = None \/
  exists b, nth_error (compressionThreadMain env sr) (S k) = Some (ScanDone b).
Proof.
  revert sr k; induction env as [|o env IH]; intros sr k; cbn;
    [destruct k; discriminate|].
  drainer_iteration o sr;
    [destruct k as [|[|[|k]]] | destruct k as [|[|[|[|k]]]] | destruct k as [|[|k]]];
    cbn; intros H; try discriminate;
    try (apply drainer_trace_head); apply IH; exact H.
Qed.

Lemma drainer_empty_scan_then_check (env : list drain_obs) (sr : bool) (k : nat) :
  nth_error (compressionThreadMain env sr) k = Some (ScanDone 0) ->
  exists b, nth_error (compressionThreadMain env sr) (S k) = Some (SyncChecked b).
Proof.
  revert sr k; induction env as [|o env IH]; intros sr k; cbn;
    [destruct k; discriminate|].
  drainer_iteration o sr;
    [destruct k as [|[|[|k]]] | destruct k as [|[|[|[|k]]]] | destruct k as [|[|k]]];
    cbn; intros H; try discriminate;
    try (eexists; reflexivity); try (apply IH; exact H).
  injection H as H. rewrite H in Hzero. discriminate.
Qed.

Lemma drainer_notify_after_empty_scan (env : list drain_obs) (sr : bool) (k : nat) :
  nth_error (compressionThreadMain env sr) k = Some NotifyHintQueueEmptied ->
  exists k', k = S (S k') /\
    nth_error (compressionThreadMain env sr) k' = Some (ScanDone 0) /\
    nth_error (compressionThreadMain env sr) (S k') = Some (SyncChecked false).
Proof.
  revert sr k; induction env as [|o env IH]; intros sr k; cbn;
    [destruct k; discriminate|].
  drainer_iteration o sr.
  - destruct k as [|[|[|k]]]; cbn; intros H; try discriminate.
    destruct (IH _ _ H) as [k' [-> [H1 H2]]]. exists (S (S (S k'))). auto.
  - destruct k as [|[|[|[|k]]]]; cbn; intros H; try discriminate.
    + exists 0%nat. apply Z.eqb_eq in Hzero. rewrite Hzero. auto.
    + destruct (IH _ _ H) as [k' [-> [H1 H2]]]. exists (S (S (S (S k')))). auto.
  - destruct k as [|[|k]]; cbn; intros H; try discriminate.
    destruct (IH _ _ H) as [k' [-> [H1 H2]]]. exists (S (S k')). auto.
Qed.

(** C4: in every run of the drainer's outer loop (whatever the scans find,
    whenever [sync] calls arrive and whenever the exit flag is raised), a
    scan that produced no output is followed by a read of
    [syncRequested]; if it was set, the drainer clears it and the next
    event is another scan (or the loop has ended); [hintQueueEmptied] is
    signalled only right after a scan that produced no output and a read
    of [syncRequested] that found it clear.  [sync] sets [syncRequested],
    notifies [workAdded] and ends by waiting on [hintQueueEmptied]. *)
Theorem drainer_sync_protocol (env : list drain_obs) (sr : bool) :
  (forall k, nth_error (compressionThreadMain env sr) k = Some (ScanDone 0) ->
     exists b, nth_error (compressionThreadMain env sr) (S k) = Some (SyncChecked b)) /\
  (forall k, nth_error (compressionThreadMain env sr) k = Some (SyncChecked true) ->
     nth_error (compressionThreadMain env sr) (S k) = Some ClearSync) /\
  (forall k, nth_error (compressionThreadMain env sr) k = Some ClearSync ->
     nth_error (compressionThreadMain env sr) (S k) = None \/
     exists b, nth_error (compressionThreadMain env sr) (S k) = Some (ScanDone b)) /\
  (forall k, nth_error (compressionThreadMain env sr) k = Some NotifyHintQueueEmptied ->
     exists k', k = S (S k') /\
       nth_error (compressionThreadMain env sr) k' = Some (ScanDone 0) /\
       nth_error (compressionThreadMain env sr) (S k') = Some (SyncChecked false)) /\
  (forall sr0, sync sr0 = (true, [SetSyncRequested; NotifyWorkAdded; WaitHintQueueEmptied])).
Proof.
  split; [apply drainer_empty_scan_then_check|].
  split; [apply drainer_sync_checked_then_cleared|].
  split; [apply drainer_clear_then_scan|].
  split; [apply drainer_notify_after_empty_scan|].
  reflexivity.
Qed.

(** With direct I/O the written length is block aligned and
    [padBytesWritten] grows by exactly the pad length. *)
Lemma pad_length_aligned (buf : Z -> Z) (out pad : Z) :
  0 <= out ->
  snd (fst (pad_for_direct_io true buf out pad)) mod 512 = 0 /\
  snd (pad_for_direct_io true buf out pad) - pad
    = snd (fst (pad_for_direct_io true buf out pad)) - out.
Proof.
  intros Hout. unfold pad_for_direct_io.
  rewrite (Z.rem_mod_nonneg out 512) by lia.
  destruct (negb (out mod 512 =? 0)) eqn:E; cbn [fst snd].
  - split; [|lia].
    replace (out + 512 - out mod 512) with (512 * (out / 512 + 1))
      by (pose proof (Z.div_mod out 512); lia).
    rewrite Z.mul_comm. apply Z.mod_mul. lia.
  - apply negb_false_iff, Z.eqb_eq in E. split; [exact E | lia].
Qed.

(** C5 (code defect): a batch of 513 bytes in a scratch buffer that still
    holds bytes 0xAB from an earlier batch is written as 1024 bytes and
    counted as 511 pad bytes, but [memset] clears only [bytesOver = 1]
    byte, so the pad region [514, 1024) is written with the stale bytes. *)
Theorem pad_zeroes_bytesOver_not_pad :
  snd (fst (pad_for_direct_io true (fun _ => 171) 513 0)) = 1024 /\
  snd (pad_for_direct_io true (fun _ => 171) 513 0) = 511 /\
  fst (fst (pad_for_direct_io true (fun _ => 171) 513 0)) 513 = 0 /\
  fst (fst (pad_for_direct_io true (fun _ => 171) 513 0)) 514 = 171.
Proof. vm_compute. repeat split. Qed.

(** An allocation failure in the constructor exits the process. *)
Lemma ctor_alloc_failure_exits (fd e1 e2 : Z) :
  fd <> 0 -> e1 <> 0 \/ e2 <> 0 -> exists msg, FastLogger_ctor fd e1 e2 = InitExit msg.
Proof.
  intros Hfd He. unfold FastLogger_ctor.
  rewrite (proj2 (Z.eqb_neq fd 0) Hfd).
  destruct (e1 =? 0) eqn:E1; [destruct (e2 =? 0) eqn:E2|]; cbn; eauto.
  apply Z.eqb_eq in E1, E2. lia.
Qed.

(** C7 (code defect): when [open] fails it returns [-1], which the test
    [if (!outputFd)] does not catch; the constructor goes on with
    [outputFd = -1]. *)
Theorem ctor_open_failure_continues :
  FastLogger_ctor (-1) 0 0 = InitRunning (-1).
Proof. reflexivity. Qed.

(** C8 (code defect): for a path that does not exist and cannot be
    created ([access] fails with [-1], [open] returns [-1]), no exception is
    thrown: the logger syncs, stops the drainer, closes the old descriptor
    and switches to [outputFd = -1]. *)
Theorem setLogFile_open_failure_no_throw :
  setLogFile_internal (-1) (-1) (-1) 3
    = Switched [SyncCall; RequestExit; JoinThread; CloseFd 3; SetOutputFd (-1);
                RelaunchThread].
Proof. reflexivity. Qed.

(** ** Further properties of the ring *)

Ltac split_ifs :=
  repeat match goal with |- context [if ?b then _ else _] => destruct b eqn:? end.

(** A blocking reservation never returns [nullptr]: it either returns a
    pointer or keeps spinning. *)
Theorem reserve_blocking_never_nullptr (SZ nbytes : Z) (reads : list Z)
    (st : StagingBuffer) :
  match reserveSpaceInternal SZ reads nbytes true st with
  | Reserved None _ => False
  | _ => True
  end.
Proof.
  revert st; induction reads as [|c reads IH]; intros st; cbn;
    destruct (minFreeSpace st <=? nbytes); cbn; auto.
  destruct (c <=? producerPos st); cbn.
  - destruct (to_u64 (SZ - producerPos st) >? nbytes); cbn; [exact I | apply IH].
  - apply IH.
Qed.

(** A successful reservation returns the final [producerPos] and leaves a
    [minFreeSpace] cache strictly larger than the request. *)
Theorem reserve_success_leaves_cache_above_request (SZ nbytes : Z) (reads : list Z)
    (blocking : bool) (st : StagingBuffer) :
  match reserveSpaceInternal SZ reads nbytes blocking st with
  | Reserved (Some r) st' => r = producerPos st' /\ nbytes < minFreeSpace st'
  | _ => True
  end.
Proof.
  revert st; induction reads as [|c reads IH]; intros st; cbn;
    destruct (minFreeSpace st <=? nbytes) eqn:E; cbn;
    try (split; [reflexivity | apply Z.leb_gt; exact E]); [exact I|].
  destruct (c <=? producerPos st); cbn.
  - destruct (to_u64 (SZ - producerPos st) >? nbytes) eqn:T; cbn.
    + split; [reflexivity|]. rewrite Z.gtb_ltb in T. apply Z.ltb_lt. exact T.
    + split_ifs; [exact I | apply IH].
  - split_ifs; [exact I | apply IH].
Qed.

(** [reserveSpaceInternal] never writes [consumerPos]. *)
Theorem reserve_keeps_consumerPos (SZ nbytes : Z) (reads : list Z) (blocking : bool)
    (st : StagingBuffer) :
  match reserveSpaceInternal SZ reads nbytes blocking st with
  | Reserved _ st' | Spinning st' => consumerPos st' = consumerPos st
  end.
Proof.
  revert st; induction reads as [|c reads IH]; intros st; cbn;
    destruct (minFreeSpace st <=? nbytes); cbn; try reflexivity.
  destruct (c <=? producerPos st); cbn; split_ifs; cbn; try reflexivity;
    match goal with |- context [reserveSpaceInternal _ reads _ _ ?X] =>
      specialize (IH X) end;
    destruct (reserveSpaceInternal _ reads _ _ _); exact IH.
Qed.

Lemma reserve_within_storage_aux (SZ nbytes : Z) (reads : list Z) (blocking : bool)
    (st : StagingBuffer) :
  SZ < 2 ^ 64 -> 0 <= nbytes -> Forall (fun c => 0 <= c <= SZ) reads ->
  0 <= producerPos st <= SZ ->
  (nbytes < minFreeSpace st -> producerPos st + nbytes < SZ) ->
  match reserveSpaceInternal SZ reads nbytes blocking st with
  | Reserved (Some r) _ => 0 <= r /\ r + nbytes < SZ
  | _ => True
  end.
Proof.
  intros Hsz Hn Hreads. revert st.
  induction Hreads as [|c reads Hc Hreads IH]; intros st Hp Hmin; cbn;
    destruct (minFreeSpace st <=? nbytes) eqn:E; cbn;
    try (apply Z.leb_gt in E; split; [lia | apply Hmin; exact E]); [exact I|].
  destruct (c <=? producerPos st) eqn:Hcp; cbn.
  - apply Z.leb_le in Hcp. rewrite (to_u64_small (SZ - producerPos st)) by lia.
    destruct (SZ - producerPos st >? nbytes) eqn:T; cbn.
    + rewrite Z.gtb_ltb in T. apply Z.ltb_lt in T. split; lia.
    + rewrite (to_u64_small (c - 0)) by lia.
      split_ifs; [exact I|]. apply IH; cbn; lia.
  - apply Z.leb_gt in Hcp. rewrite (to_u64_small (c - producerPos st)) by lia.
    split_ifs; [exact I|]. apply IH; cbn; lia.
Qed.

(** When the slow path is taken and every observed [consumerPos] lies in
    [storage], a successful reservation of [nbytes] starts at or after
    [storage] and ends strictly before [endOfBuffer]. *)
Theorem reserve_slow_path_within_storage (SZ nbytes : Z) (reads : list Z)
    (blocking : bool) (st : StagingBuffer) :
  SZ < 2 ^ 64 -> 0 <= nbytes -> Forall (fun c => 0 <= c <= SZ) reads ->
  0 <= producerPos st <= SZ -> minFreeSpace st <= nbytes ->
  match reserveSpaceInternal SZ reads nbytes blocking st with
  | Reserved (Some r) _ => 0 <= r /\ r + nbytes < SZ
  | _ => True
  end.
Proof.
  intros Hsz Hn Hreads Hp Hmin. apply reserve_within_storage_aux; auto. lia.
Qed.

Lemma reserve_slow_path_within_storage_witness :
  (4096 < 2 ^ 64 /\ 0 <= 600 /\ Forall (fun c => 0 <= c <= 4096) [3000] /\
   0 <= 3600 <= 4096 /\ 496 <= 600) /\
  reserveSpaceInternal 4096 [3000] 600 true (mkSB 3600 3000 0 496)
    = Reserved (Some 0) (mkSB 0 3000 3600 3000) /\
  (0 <= 0 /\ 0 + 600 < 4096).
Proof.
  split; [repeat split; try lia; repeat constructor; lia|].
  split; [reflexivity|].
  exact (reserve_slow_path_within_storage 4096 600 [3000] true (mkSB 3600 3000 0 496)
           ltac:(lia) ltac:(lia) ltac:(repeat constructor; lia) ltac:(cbn; lia)
           ltac:(cbn; lia)).
Defined.

(** Peeking again without consuming returns the same run and state. *)
Theorem peek_idempotent (st : StagingBuffer) :
  0 <= producerPos st -> peek (snd (peek st)) = peek st.
Proof.
  intros Hp. destruct st as [p c e m]; cbn in Hp. unfold peek; cbn.
  destruct (p <? c) eqn:Hpc; cbn.
  - destruct (to_u64 (e - c) >? 0) eqn:Hb; cbn.
    + rewrite Hpc, Hb. reflexivity.
    + replace (p <? 0) with false by (symmetry; apply Z.ltb_ge; lia). reflexivity.
  - rewrite Hpc. reflexivity.
Qed.

Lemma peek_idempotent_witness :
  0 <= 100 /\ peek (snd (peek (mkSB 100 3000 3000 0))) = peek (mkSB 100 3000 3000 0).
Proof. split; [lia | apply peek_idempotent; cbn; lia]. Defined.

(** [peek] returns a pointer equal to the (new) [consumerPos], leaves the
    producer's fields alone, and changes [consumerPos] only by resetting it
    to [storage]. *)
Theorem peek_only_rewinds_consumerPos (st : StagingBuffer) :
  fst (fst (peek st)) = consumerPos (snd (peek st)) /\
  producerPos (snd (peek st)) = producerPos st /\
  endOfRecordedSpace (snd (peek st)) = endOfRecordedSpace st /\
  minFreeSpace (snd (peek st)) = minFreeSpace st /\
  (consumerPos (snd (peek st)) = consumerPos st \/ consumerPos (snd (peek st)) = 0).
Proof.
  unfold peek. split_ifs; cbn; repeat split; auto.
Qed.

(** ** Further properties of the scan *)

Lemma length_replace_nth {A} (l : list A) (n : nat) (x : A) :
  length (replace_nth l n x) = length l.
Proof.
  revert n; induction l as [|y l IH]; intros [|n]; cbn; auto.
Qed.

Lemma length_erase_nth {A} (l : list A) (n : nat) :
  (n < length l)%nat -> length (erase_nth l n) = pred (length l).
Proof.
  revert n; induction l as [|y l IH]; intros [|n] Hn; cbn in *; try lia.
  rewrite IH by lia. destruct l; cbn in *; lia.
Qed.

Lemma erase_replace_nth {A} (l : list A) (n : nat) (x : A) :
  erase_nth (replace_nth l n x) n = erase_nth l n.
Proof.
  revert n; induction l as [|y l IH]; intros [|n]; cbn; auto. rewrite IH. reflexivity.
Qed.

Lemma Forall_replace_nth {A} (P : A -> Prop) (l : list A) (n : nat) (x : A) :
  Forall P l -> P x -> Forall P (replace_nth l n x).
Proof.
  intros Hl Hx. revert n; induction Hl as [|y l Hy Hl IH]; intros [|n]; cbn;
    constructor; auto.
Qed.

Lemma Forall_erase_nth {A} (P : A -> Prop) (l : list A) (n : nat) :
  Forall P l -> Forall P (erase_nth l n).
Proof.
  intros Hl. revert n; induction Hl as [|y l Hy Hl IH]; intros [|n]; cbn; auto.
Qed.

Lemma nth_error_in_range {A} (l : list A) (n : nat) :
  (n < length l)%nat -> exists x, nth_error l n = Some x.
Proof.
  intros H. destruct (nth_error l n) as [x|] eqn:E; [eauto|].
  apply nth_error_None in E. lia.
Qed.

Lemma nth_error_range {A} (l : list A) (n : nat) (x : A) :
  nth_error l n = Some x -> (n < length l)%nat.
Proof. intros H. apply nth_error_Some. congruence. Qed.

Lemma live_count_replace (l : list SBuf) (n : nat) (sb x : SBuf) :
  nth_error l n = Some sb -> shouldDeallocate x = shouldDeallocate sb ->
  live_count (replace_nth l n x) = live_count l.
Proof.
  unfold live_count. revert n; induction l as [|y l IH]; intros [|n] Hn Hx;
    cbn in *; try discriminate.
  - injection Hn as ->. rewrite Hx. destruct (negb (shouldDeallocate sb)); reflexivity.
  - specialize (IH n Hn Hx). destruct (negb (shouldDeallocate y)); cbn; lia.
Qed.

Lemma live_count_erase (l : list SBuf) (n : nat) (sb : SBuf) :
  nth_error l n = Some sb -> shouldDeallocate sb = true ->
  live_count (erase_nth l n) = live_count l.
Proof.
  unfold live_count. revert n; induction l as [|y l IH]; intros [|n] Hn Hd;
    cbn in *; try discriminate.
  - injection Hn as ->. rewrite Hd. reflexivity.
  - specialize (IH n Hn Hd). destruct (negb (shouldDeallocate y)); cbn; lia.
Qed.

Lemma compress_calls_app (l1 l2 : list scan_event) :
  compress_calls (l1 ++ l2) = compress_calls l1 + compress_calls l2.
Proof.
  induction l1 as [|e l1 IH]; [reflexivity|].
  destruct e; cbn [compress_calls bytes_compressed buffers_destroyed app]; lia.
Qed.

Lemma bytes_compressed_app (l1 l2 : list scan_event) :
  bytes_compressed (l1 ++ l2) = bytes_compressed l1 + bytes_compressed l2.
Proof.
  induction l1 as [|e l1 IH]; [reflexivity|].
  destruct e; cbn [compress_calls bytes_compressed buffers_destroyed app]; lia.
Qed.

Lemma buffers_destroyed_app (l1 l2 : list scan_event) :
  buffers_destroyed (l1 ++ l2) = (buffers_destroyed l1 + buffers_destroyed l2)%nat.
Proof.
  induction l1 as [|e l1 IH]; [reflexivity|].
  destruct e; cbn [compress_calls bytes_compressed buffers_destroyed app]; lia.
Qed.

(** What [advance] leaves unchanged. *)
Lemma advance_frame (P : Scan -> Prop) (s : Scan) :
  (forall s', threadBuffers s' = threadBuffers s -> compressing s' = compressing s ->
     out s' = out s -> eventsProcessed s' = eventsProcessed s ->
     totalBytesRead s' = totalBytesRead s -> scan_log s' = scan_log s ->
     i s' = Nat.modulo (S (i s)) (length (threadBuffers s)) -> P s') ->
  P (step_state (advance s)).
Proof.
  intros H. unfold advance. cbv zeta.
  destruct (Nat.eqb _ _); [destruct (negb _)|]; apply H; reflexivity.
Qed.

Lemma advance_not_undefined (s s' : Scan) : advance s <> Undefined s'.
Proof.
  unfold advance. cbv zeta. destruct (Nat.eqb _ _); [destruct (negb _)|]; discriminate.
Qed.

Lemma advance_break (s s' : Scan) :
  advance s = Break s' -> compressing s' = compressing s.
Proof.
  unfold advance. cbv zeta.
  destruct (Nat.eqb _ _); [destruct (negb _)|]; intros H; inversion H; reflexivity.
Qed.

(** Carries an invariant of one step through a whole scan. *)
Lemma scan_invariant (Inv : Scan -> Prop) OBS meta fns ex :
  (forall s, Inv s -> Inv (step_state (scan_step_fn OBS meta fns ex s))) ->
  forall fuel s, Inv s -> Inv (snd (scan OBS meta fns ex fuel s)).
Proof.
  intros Hstep fuel; induction fuel as [|fuel IH]; intros s H; [exact H|].
  cbn [scan]. specialize (Hstep s H).
  destruct (scan_step_fn OBS meta fns ex s); [apply IH|..]; exact Hstep.
Qed.

(** [i] indexes [threadBuffers], unless the scan is between records and
    the registry is empty. *)
Definition scan_index_ok (s : Scan) : Prop :=
  (i s < length (threadBuffers s))%nat \/
  (compressing s = None /\ threadBuffers s = []).

Lemma advance_index_ok (s : Scan) :
  (0 < length (threadBuffers s))%nat -> scan_index_ok (step_state (advance s)).
Proof.
  intros Hl. apply advance_frame. intros s' Htb _ _ _ _ _ Hi.
  left. rewrite Hi, Htb. apply Nat.mod_upper_bound. lia.
Qed.

Lemma scan_step_index OBS meta fns ex (s : Scan) :
  scan_index_ok s ->
  scan_index_ok (step_state (scan_step_fn OBS meta fns ex s)) /\
  (forall s', scan_step_fn OBS meta fns ex s <> Undefined s').
Proof.
  intros Hok. unfold scan_step_fn.
  destruct (compressing s) as [[[pp rb] rbs]|] eqn:Hc.
  - assert (Hi : (i s < length (threadBuffers s))%nat)
      by (destruct Hok as [H|[H _]]; [exact H | congruence]).
    destruct (rb >? 0).
    + destruct (nth_error_in_range _ _ Hi) as [sb Hsb]. rewrite Hsb.
      destruct (_ >? OBS - out s).
      * split; [apply advance_index_ok; cbn; lia | intros s'; apply advance_not_undefined].
      * split; [|discriminate]. unfold scan_index_ok; cbn. left. rewrite length_replace_nth. exact Hi.
    + split; [apply advance_index_ok; cbn; lia | intros s'; apply advance_not_undefined].
  - destruct (negb ex && negb (outputBufferFull s) && negb (Nat.eqb _ 0)) eqn:Hg;
      [|split; [exact Hok | discriminate]].
    apply andb_true_iff in Hg as [_ Hg]. apply negb_true_iff, Nat.eqb_neq in Hg.
    assert (Hi : (i s < length (threadBuffers s))%nat)
      by (destruct Hok as [H|[_ H]]; [exact H | rewrite H in Hg; contradiction]).
    destruct (nth_error_in_range _ _ Hi) as [sb0 Hsb]. rewrite Hsb.
    destruct (peek (sb_ring sb0)) as [[pp rb] ring].
    destruct (rb >? 0).
    + split; [|discriminate]. unfold scan_index_ok; cbn. left. rewrite length_replace_nth. exact Hi.
    + destruct (checkCanDelete (set_sb_ring sb0 ring)).
      * cbn. rewrite length_erase_nth by (rewrite length_replace_nth; exact Hi).
        rewrite length_replace_nth.
        destruct (Nat.eqb (i s) (pred (length (threadBuffers s)))) eqn:He;
          [destruct (Nat.eqb (lastStagingBufferChecked s) (i s))|];
          (split; [|discriminate]); unfold scan_index_ok; cbn.
        -- destruct (erase_nth (replace_nth (threadBuffers s) (i s) (set_sb_ring sb0 ring))
                       (i s)) eqn:El; [right; auto | left; cbn; lia].
        -- destruct (erase_nth (replace_nth (threadBuffers s) (i s) (set_sb_ring sb0 ring))
                       (i s)) eqn:El; [right; auto | left; cbn; lia].
        -- left. rewrite length_erase_nth by (rewrite length_replace_nth; exact Hi).
           rewrite length_replace_nth. apply Nat.eqb_neq in He. lia.
      * split; [apply advance_index_ok; cbn; rewrite length_replace_nth; lia
               | intros s'; apply advance_not_undefined].
Qed.

Lemma scan_index_no_ub OBS meta fns ex (fuel : nat) (s : Scan) :
  scan_index_ok s -> fst (scan OBS meta fns ex fuel s) <> UB.
Proof.
  revert s; induction fuel as [|fuel IH]; intros s Hok; cbn [scan]; [discriminate|].
  destruct (scan_step_index OBS meta fns ex s Hok) as [Hnext Hnu].
  destruct (scan_step_fn OBS meta fns ex s) eqn:E; cbn [fst].
  - apply IH. exact Hnext.
  - discriminate.
  - exfalso. exact (Hnu s0 eq_refl).
Qed.

(** A scan that starts at a valid index ([lastStagingBufferChecked] inside
    the registry, or an empty registry) never reads [threadBuffers] out of
    range: [i] stays valid across the wrap-around of line 356 and across
    the erase of lines 341-352, whose reset to [0] covers the erase of the
    last element. *)
Theorem scan_never_indexes_out_of_range OBS meta fns ex (fuel : nat)
    (threadBuffers : list SBuf) (last : nat) (lastFmtId lastTimestamp ev rd : Z) :
  (last < length threadBuffers)%nat \/ threadBuffers = [] ->
  fst (scan OBS meta fns ex fuel
         (scan_start threadBuffers last lastFmtId lastTimestamp ev rd)) <> UB.
Proof.
  intros H. apply scan_index_no_ub. unfold scan_index_ok; cbn.
  destruct H as [H|H]; [left; exact H | right; split; [reflexivity | exact H]].
Qed.

Lemma scan_never_indexes_out_of_range_witness :
  ((2 < 3)%nat \/ [sb_entries32 (ring_of 0 0) true; sb_entries32 (ring_of 0 0) false;
                   sb_entries32 (ring_of 32 0) false] = []) /\
  fst (scan 1048576 meta3 copy_fn false 1000 erase_start) <> UB.
Proof.
  split; [left; lia|].
  exact (scan_never_indexes_out_of_range 1048576 meta3 copy_fn false 1000
           [sb_entries32 (ring_of 0 0) true; sb_entries32 (ring_of 0 0) false;
            sb_entries32 (ring_of 32 0) false] 2 0 0 0 0 ltac:(left; cbn; lia)).
Defined.

(** Registry bookkeeping kept by every step: the number of buffers of live
    threads, and the registry length plus the buffers destroyed. *)
Definition registry_inv (live total : nat) (s : Scan) : Prop :=
  live_count (threadBuffers s) = live /\
  (length (threadBuffers s) + buffers_destroyed (scan_log s))%nat = total.

Lemma scan_step_registry OBS meta fns ex live total (s : Scan) :
  registry_inv live total s ->
  registry_inv live total (step_state (scan_step_fn OBS meta fns ex s)).
Proof.
  intros [Hlive Htot]. unfold scan_step_fn.
  destruct (compressing s) as [[[pp rb] rbs]|] eqn:Hc.
  - destruct (rb >? 0).
    + destruct (nth_error (threadBuffers s) (i s)) as [sb|] eqn:Hsb; [|split; assumption].
      destruct (_ >? OBS - out s).
      * apply advance_frame. intros s' H1 _ _ _ _ H6 _. unfold registry_inv.
        rewrite H1, H6. cbn -[live_count]. split; assumption.
      * unfold registry_inv; cbn -[live_count].
        rewrite (live_count_replace _ _ sb) by (exact Hsb || reflexivity).
        rewrite length_replace_nth, buffers_destroyed_app. cbn -[live_count].
        split; [exact Hlive | lia].
    + apply advance_frame. intros s' H1 _ _ _ _ H6 _. unfold registry_inv.
      rewrite H1, H6. cbn -[live_count]. split; assumption.
  - destruct (negb ex && _ && _); [|split; assumption].
    destruct (nth_error (threadBuffers s) (i s)) as [sb0|] eqn:Hsb; [|split; assumption].
    pose proof (nth_error_range _ _ _ Hsb) as Hi.
    destruct (peek (sb_ring sb0)) as [[pp rb] ring].
    destruct (rb >? 0).
    + unfold registry_inv; cbn -[live_count].
      rewrite (live_count_replace _ _ sb0) by (exact Hsb || reflexivity).
      rewrite length_replace_nth. split; assumption.
    + destruct (checkCanDelete (set_sb_ring sb0 ring)) eqn:Hdel.
      * assert (Hd : shouldDeallocate sb0 = true)
          by (unfold checkCanDelete in Hdel; cbn in Hdel;
              apply andb_true_iff in Hdel; apply Hdel).
        assert (Hreg : live_count (erase_nth (replace_nth (threadBuffers s) (i s)
                                                (set_sb_ring sb0 ring)) (i s)) = live /\
                       (length (erase_nth (replace_nth (threadBuffers s) (i s)
                                             (set_sb_ring sb0 ring)) (i s)) +
                        buffers_destroyed (scan_log s ++ [Destroyed (i s) rb true]))%nat
                       = total).
        { rewrite erase_replace_nth, (live_count_erase _ _ sb0 Hsb Hd).
          rewrite length_erase_nth by exact Hi. rewrite buffers_destroyed_app. cbn -[live_count].
          split; [exact Hlive | lia]. }
        cbn -[live_count]. destruct (Nat.eqb _ _); [destruct (Nat.eqb _ _)|]; exact Hreg.
      * apply advance_frame. intros s' H1 _ _ _ _ H6 _. unfold registry_inv.
        rewrite H1, H6. cbn -[live_count].
        rewrite (live_count_replace _ _ sb0) by (exact Hsb || reflexivity).
        rewrite length_replace_nth. split; assumption.
Qed.

(** The scan only removes buffers whose owner thread has exited (the
    number of buffers with [shouldDeallocate] unset is unchanged) and logs
    each removal: the registry shrinks by exactly the number of
    [Destroyed] events. *)
Theorem scan_removes_only_exited_buffers OBS meta fns ex (fuel : nat)
    (tb : list SBuf) (last : nat) (lastFmtId lastTimestamp ev rd : Z) :
  let s' := snd (scan OBS meta fns ex fuel
                   (scan_start tb last lastFmtId lastTimestamp ev rd)) in
  live_count (threadBuffers s') = live_count tb /\
  (length (threadBuffers s') + buffers_destroyed (scan_log s'))%nat = length tb.
Proof.
  cbv zeta. apply (scan_invariant (registry_inv (live_count tb) (length tb))).
  - intros s. apply scan_step_registry.
  - unfold registry_inv; cbn. split; [reflexivity | lia].
Qed.

(** Counters kept in step with the log by every step. *)
Definition accounting_inv (k1 k2 : Z) (s : Scan) : Prop :=
  eventsProcessed s - compress_calls (scan_log s) = k1 /\
  totalBytesRead s + pending_read s - bytes_compressed (scan_log s) = k2.

Lemma scan_step_accounting OBS meta fns ex k1 k2 (s : Scan) :
  accounting_inv k1 k2 s ->
  accounting_inv k1 k2 (step_state (scan_step_fn OBS meta fns ex s)).
Proof.
  intros Hinv. pose proof Hinv as [He Ht]. unfold pending_read in Ht.
  unfold scan_step_fn.
  destruct (compressing s) as [[[pp rb] rbs]|] eqn:Hc.
  - destruct (rb >? 0).
    + destruct (nth_error (threadBuffers s) (i s)) as [sb|]; [|exact Hinv].
      destruct (_ >? OBS - out s).
      * apply advance_frame. intros s' _ H2 _ H4 H5 H6 _.
        unfold accounting_inv, pending_read. rewrite H2, H4, H5, H6.
        cbn -[compress_calls bytes_compressed Z.add Z.sub]. split; lia.
      * unfold accounting_inv, pending_read.
        cbn -[compress_calls bytes_compressed Z.add Z.sub].
        rewrite compress_calls_app, bytes_compressed_app.
        cbn [compress_calls bytes_compressed]. split; lia.
    + apply advance_frame. intros s' _ H2 _ H4 H5 H6 _.
      unfold accounting_inv, pending_read. rewrite H2, H4, H5, H6.
      cbn -[compress_calls bytes_compressed Z.add Z.sub]. split; lia.
  - destruct (negb ex && _ && _); [|exact Hinv].
    destruct (nth_error (threadBuffers s) (i s)) as [sb0|]; [|exact Hinv].
    destruct (peek (sb_ring sb0)) as [[pp rb] ring].
    destruct (rb >? 0).
    + unfold accounting_inv, pending_read.
      cbn -[compress_calls bytes_compressed Z.add Z.sub]. split; lia.
    + destruct (checkCanDelete (set_sb_ring sb0 ring)).
      * assert (Hd : accounting_inv k1 k2
                       (set_scan_log s (scan_log s ++ [Destroyed (i s) rb true]))).
        { unfold accounting_inv, pending_read.
          cbn -[compress_calls bytes_compressed Z.add Z.sub]. rewrite Hc.
          rewrite compress_calls_app, bytes_compressed_app.
          cbn [compress_calls bytes_compressed]. split; lia. }
        cbn -[compress_calls bytes_compressed Z.add Z.sub].
        destruct (Nat.eqb _ _); [destruct (Nat.eqb _ _)|]; exact Hd.
      * apply advance_frame. intros s' _ H2 _ H4 H5 H6 _.
        unfold accounting_inv, pending_read. rewrite H2, H4, H5, H6.
        cbn -[compress_calls bytes_compressed Z.add Z.sub]. rewrite Hc. split; lia.
Qed.

Lemma scan_step_break_idle OBS meta fns ex (s s' : Scan) :
  scan_step_fn OBS meta fns ex s = Break s' -> compressing s' = None.
Proof.
  unfold scan_step_fn.
  destruct (compressing s) as [[[pp rb] rbs]|] eqn:Hc.
  - destruct (rb >? 0).
    + destruct (nth_error (threadBuffers s) (i s)); [|discriminate].
      destruct (_ >? OBS - out s); [|discriminate].
      intros H. apply advance_break in H. rewrite H. reflexivity.
    + intros H. apply advance_break in H. rewrite H. reflexivity.
  - destruct (negb ex && _ && _); [|intros H; injection H as <-; exact Hc].
    destruct (nth_error (threadBuffers s) (i s)); [|discriminate].
    destruct (peek _) as [[pp rb] ring].
    destruct (rb >? 0); [discriminate|].
    destruct (checkCanDelete _);
      [cbn; destruct (Nat.eqb _ _); [destruct (Nat.eqb _ _)|]; discriminate|].
    intros H. apply advance_break in H. rewrite H. exact Hc.
Qed.

Lemma scan_finished_idle OBS meta fns ex (fuel : nat) (s : Scan) :
  fst (scan OBS meta fns ex fuel s) = Finished ->
  compressing (snd (scan OBS meta fns ex fuel s)) = None.
Proof.
  revert s; induction fuel as [|fuel IH]; intros s; cbn [scan]; [discriminate|].
  destruct (scan_step_fn OBS meta fns ex s) eqn:E; cbn [fst snd].
  - apply IH.
  - intros _. exact (scan_step_break_idle OBS meta fns ex s s0 E).
  - discriminate.
Qed.

(** [eventsProcessed] grows by one per per-format compressor call, and a
    scan that ends has added to [totalBytesRead] exactly the [entrySize] of
    every record it compressed: no partially processed peek is left
    unaccounted (lines 319, 330 and 334). *)
Theorem scan_counts_records_and_bytes OBS meta fns ex (fuel : nat)
    (tb : list SBuf) (last : nat) (lastFmtId lastTimestamp ev rd : Z) :
  let r := scan OBS meta fns ex fuel (scan_start tb last lastFmtId lastTimestamp ev rd) in
  eventsProcessed (snd r) = ev + compress_calls (scan_log (snd r)) /\
  (fst r = Finished -> totalBytesRead (snd r) = rd + bytes_compressed (scan_log (snd r))).
Proof.
  cbv zeta.
  pose proof (scan_invariant (accounting_inv ev rd) OBS meta fns ex
                (fun s => scan_step_accounting OBS meta fns ex ev rd s) fuel
                (scan_start tb last lastFmtId lastTimestamp ev rd)) as Hinv.
  destruct Hinv as [He Ht]; [unfold accounting_inv, pending_read; cbn; split; lia|].
  split; [lia|]. intros Hf.
  pose proof (scan_finished_idle OBS meta fns ex fuel _ Hf) as Hidle.
  unfold pending_read in Ht. rewrite Hidle in Ht. lia.
Qed.

Lemma Forall_nth_error {A} (P : A -> Prop) (l : list A) (n : nat) (x : A) :
  Forall P l -> nth_error l n = Some x -> P x.
Proof.
  intros Hl Hx. rewrite Forall_forall in Hl. apply Hl. eapply nth_error_In. exact Hx.
Qed.

(** [out] inside [compressingBuffer], and sizes of the visible records. *)
Definition out_inv (OBS : Z) (s : Scan) : Prop :=
  0 <= out s <= OBS /\ Forall sbuf_sizes_ok (threadBuffers s).

(** What the generated compressors promise for a record: nonnegative
    lengths whose sum is at most [entrySize + argMetaBytes]. *)
Definition compressors_bounded (meta : UncompressedLogEntry -> Z -> Z -> Z)
    (fns : Z -> UncompressedLogEntry -> Z) : Prop :=
  forall re t f, 0 <= entrySize re -> 0 <= argMetaBytes re ->
    0 <= meta re t f /\ 0 <= fns (fmtId re) re /\
    meta re t f + fns (fmtId re) re <= entrySize re + argMetaBytes re.

Lemma scan_step_out OBS meta fns ex (s : Scan) :
  compressors_bounded meta fns -> out_inv OBS s ->
  out_inv OBS (step_state (scan_step_fn OBS meta fns ex s)).
Proof.
  intros Hc Hinv. pose proof Hinv as [Hout Hsz]. unfold scan_step_fn.
  destruct (compressing s) as [[[pp rb] rbs]|].
  - destruct (rb >? 0).
    + destruct (nth_error (threadBuffers s) (i s)) as [sb|] eqn:Hsb; [|exact Hinv].
      destruct (entrySize (sb_mem sb pp) + argMetaBytes (sb_mem sb pp) >? OBS - out s)
        eqn:Hfit.
      * apply advance_frame. intros s' H1 _ H3 _ _ _ _.
        unfold out_inv. rewrite H1, H3. cbn. split; assumption.
      * rewrite Z.gtb_ltb in Hfit. apply Z.ltb_ge in Hfit.
        pose proof (Forall_nth_error _ _ _ _ Hsz Hsb pp) as [HE HA].
        destruct (Hc (sb_mem sb pp) (lastTimestamp s) (lastFmtId s) HE HA)
          as (Hm & Hf & Hmf).
        unfold out_inv; cbn. split; [lia|].
        apply Forall_replace_nth; [exact Hsz|].
        exact (Forall_nth_error _ _ _ _ Hsz Hsb).
    + apply advance_frame. intros s' H1 _ H3 _ _ _ _.
      unfold out_inv. rewrite H1, H3. cbn. split; assumption.
  - destruct (negb ex && _ && _); [|exact Hinv].
    destruct (nth_error (threadBuffers s) (i s)) as [sb0|] eqn:Hsb; [|exact Hinv].
    pose proof (Forall_nth_error _ _ _ _ Hsz Hsb) as Hsb0.
    assert (Hrep : forall ring, Forall sbuf_sizes_ok
              (replace_nth (threadBuffers s) (i s) (set_sb_ring sb0 ring)))
      by (intros ring; apply Forall_replace_nth; [exact Hsz | exact Hsb0]).
    destruct (peek (sb_ring sb0)) as [[pp rb] ring].
    destruct (rb >? 0).
    + unfold out_inv; cbn. split; [exact Hout | apply Hrep].
    + destruct (checkCanDelete (set_sb_ring sb0 ring)).
      * assert (Hd : out_inv OBS (set_threadBuffers s (erase_nth
                  (replace_nth (threadBuffers s) (i s) (set_sb_ring sb0 ring)) (i s))))
          by (unfold out_inv; cbn; split; [exact Hout | apply Forall_erase_nth, Hrep]).
        cbn. destruct (Nat.eqb _ _); [destruct (Nat.eqb _ _)|]; exact Hd.
      * apply advance_frame. intros s' H1 _ H3 _ _ _ _.
        unfold out_inv. rewrite H1, H3. cbn. split; [exact Hout | apply Hrep].
Qed.

(** With compressors that keep their bound, the drainer never writes past
    the end of [compressingBuffer]: the test of line 310 against
    [endOfBuffer - out] keeps [out] within [OUTPUT_BUFFER_SIZE] bytes. *)
Theorem scan_output_stays_in_buffer OBS meta fns ex (fuel : nat)
    (tb : list SBuf) (last : nat) (lastFmtId lastTimestamp ev rd : Z) :
  0 <= OBS -> Forall sbuf_sizes_ok tb -> compressors_bounded meta fns ->
  0 <= out (snd (scan OBS meta fns ex fuel
                   (scan_start tb last lastFmtId lastTimestamp ev rd))) <= OBS.
Proof.
  intros HOBS Htb Hc.
  apply (scan_invariant (out_inv OBS) OBS meta fns ex
           (fun s => scan_step_out OBS meta fns ex s Hc)).
  unfold out_inv; cbn. split; [lia | exact Htb].
Qed.

Lemma scan_output_stays_in_buffer_witness :
  (0 <= 1048576 /\
   Forall sbuf_sizes_ok [sb_entries32 (ring_of 0 0) true; sb_entries32 (ring_of 0 0) false;
                         sb_entries32 (ring_of 32 0) false] /\
   compressors_bounded (fun _ _ _ => 0) copy_fn) /\
  0 <= out (snd (scan 1048576 (fun _ _ _ => 0) copy_fn false 1000
                   (scan_start [sb_entries32 (ring_of 0 0) true;
                                sb_entries32 (ring_of 0 0) false;
                                sb_entries32 (ring_of 32 0) false] 2 0 0 0 0))) <= 1048576.
Proof.
  assert (Hsz : Forall sbuf_sizes_ok [sb_entries32 (ring_of 0 0) true;
                  sb_entries32 (ring_of 0 0) false; sb_entries32 (ring_of 32 0) false])
    by (repeat (apply Forall_cons; [intros p; cbn; lia|]); apply Forall_nil).
  assert (Hc : compressors_bounded (fun _ _ _ => 0) copy_fn)
    by (intros re t f HE HA; unfold copy_fn; lia).
  split; [split; [lia | split; assumption]|].
  exact (scan_output_stays_in_buffer 1048576 (fun _ _ _ => 0) copy_fn false 1000 _ 2 0 0 0 0
           ltac:(lia) Hsz Hc).
Defined.






(** ** Further properties of the output path *)

(** With [O_DIRECT], a batch of [out] bytes is written as the next multiple
    of 512, fewer than 512 bytes longer; [padBytesWritten] grows by the
    added length, and the batch's own bytes are left untouched. *)
Theorem pad_rounds_up_to_sector (buf : Z -> Z) (out pad : Z) :
  0 <= out ->
  snd (fst (pad_for_direct_io true buf out pad)) mod 512 = 0 /\
  out <= snd (fst (pad_for_direct_io true buf out pad)) < out + 512 /\
  snd (pad_for_direct_io true buf out pad) - pad
    = snd (fst (pad_for_direct_io true buf out pad)) - out /\
  (forall k, k < out -> fst (fst (pad_for_direct_io true buf out pad)) k = buf k).
Proof.
  intros Hout.
  destruct (pad_length_aligned buf out pad Hout) as [Halign Hpad].
  split; [exact Halign|]. split; [|split; [exact Hpad|]].
  - unfold pad_for_direct_io. rewrite (Z.rem_mod_nonneg out 512) by lia.
    pose proof (Z.mod_pos_bound out 512 ltac:(lia)).
    destruct (negb (out mod 512 =? 0)) eqn:E; cbn [fst snd].
    + apply negb_true_iff, Z.eqb_neq in E. lia.
    + lia.
  - intros k Hk. unfold pad_for_direct_io. cbv zeta.
    destruct (negb (Z.rem out 512 =? 0)); cbn [fst snd]; [|reflexivity].
    unfold memset0. replace (out <=? k) with false by (symmetry; apply Z.leb_gt; lia).
    reflexivity.
Qed.

Lemma pad_rounds_up_to_sector_witness :
  0 <= 513 /\
  snd (fst (pad_for_direct_io true (fun _ => 171) 513 0)) mod 512 = 0 /\
  513 <= snd (fst (pad_for_direct_io true (fun _ => 171) 513 0)) < 513 + 512 /\
  snd (pad_for_direct_io true (fun _ => 171) 513 0) - 0
    = snd (fst (pad_for_direct_io true (fun _ => 171) 513 0)) - 513 /\
  (forall k, k < 513 -> fst (fst (pad_for_direct_io true (fun _ => 171) 513 0)) k = 171).
Proof.
  split; [lia|]. exact (pad_rounds_up_to_sector (fun _ => 171) 513 0 ltac:(lia)).
Defined.

Lemma waitForAIO_frame (o : aio_obs) (s : IoState) :
  compressingBuffer (waitForAIO o s) = compressingBuffer s /\
  outputDoubleBuffer (waitForAIO o s) = outputDoubleBuffer s /\
  aio_buf (waitForAIO o s) = aio_buf s /\
  hasOutstandingOperation (waitForAIO o s) = false /\
  totalBytesWritten (waitForAIO o s) = totalBytesWritten s /\
  numAioWritesCompleted (waitForAIO o s) = numAioWritesCompleted s + outstanding s.
Proof.
  unfold waitForAIO, outstanding. cbv zeta.
  destruct (hasOutstandingOperation s) eqn:Hh; [|repeat split; auto; lia].
  split_ifs; cbn; repeat split; reflexivity.
Qed.

Lemma output_batch_aio (fd n : Z) (o : batch_obs) (s : IoState) :
  let s' := output_batch true fd n o s in
  compressingBuffer s' = outputDoubleBuffer s /\
  outputDoubleBuffer s' = compressingBuffer s /\
  aio_buf s' = compressingBuffer s /\
  hasOutstandingOperation s' = true /\
  totalBytesWritten s' = totalBytesWritten s + n /\
  numAioWritesCompleted s' = numAioWritesCompleted s + outstanding s.
Proof.
  destruct (waitForAIO_frame (batch_reap o) s) as (H1 & H2 & _ & _ & H5 & H6).
  unfold output_batch. cbv zeta.
  destruct (aio_write_result o =? -1); cbn; rewrite ?H1, ?H2, ?H5, ?H6;
    repeat split; reflexivity.
Qed.



Lemma output_batches_aio_counts (fd : Z) (batches : list (Z * batch_obs)) (s : IoState) :
  numAioWritesCompleted (output_batches true fd batches s)
    + outstanding (output_batches true fd batches s)
    = numAioWritesCompleted s + outstanding s + Z.of_nat (length batches) /\
  totalBytesWritten (output_batches true fd batches s)
    = totalBytesWritten s + batch_bytes batches.
Proof.
  revert s; induction batches as [|[n o] batches IH]; intros s;
    cbn [output_batches length batch_bytes fold_right fst]; [split; lia|].
  destruct (output_batch_aio fd n o s) as (_ & _ & _ & H4 & H5 & H6).
  destruct (IH (output_batch true fd n o s)) as [Hc Ht].
  unfold batch_bytes in *. unfold outstanding in Hc at 2. rewrite H4, H6 in Hc.
  rewrite H5 in Ht. split; lia.
Qed.

(** In AIO mode every write the drainer issues is reaped exactly once by
    the time it exits: [numAioWritesCompleted] ends at one per batch (plus
    one for a write already outstanding), nothing stays outstanding, and
    [totalBytesWritten] grows by the size of every batch. *)
Theorem aio_writes_all_reaped (fd err ret : Z) (batches : list (Z * batch_obs))
    (s : IoState) :
  let s' := reap_at_exit err ret (output_batches true fd batches s) in
  hasOutstandingOperation s' = false /\
  numAioWritesCompleted s'
    = numAioWritesCompleted s + outstanding s + Z.of_nat (length batches) /\
  totalBytesWritten s' = totalBytesWritten s + batch_bytes batches.
Proof.
  cbv zeta. destruct (output_batches_aio_counts fd batches s) as [Hc Ht].
  remember (output_batches true fd batches s) as s1 eqn:Hs1.
  unfold reap_at_exit. unfold outstanding in Hc at 1. cbv zeta.
  destruct (hasOutstandingOperation s1) eqn:Hh.
  - split_ifs; cbn -[Z.add]; repeat split; lia.
  - repeat split; [exact Hh | lia | exact Ht].
Qed.

(** In synchronous mode each batch is one [write] of [compressingBuffer]
    (plus a diagnostic when it is short); the buffers, the AIO state and
    the counters [numAioWritesCompleted] and [totalBytesWritten] are left
    as they were (lines 448-449). *)
Theorem sync_output_writes_in_place (fd : Z) (batches : list (Z * batch_obs))
    (s : IoState) :
  let s' := output_batches false fd batches s in
  compressingBuffer s' = compressingBuffer s /\
  outputDoubleBuffer s' = outputDoubleBuffer s /\
  hasOutstandingOperation s' = hasOutstandingOperation s /\
  numAioWritesCompleted s' = numAioWritesCompleted s /\
  totalBytesWritten s' = totalBytesWritten s /\
  io_log s' = io_log s ++ flat_map (sync_batch_events fd (compressingBuffer s)) batches.
Proof.
  cbv zeta. revert s; induction batches as [|[n o] batches IH]; intros s;
    cbn [output_batches flat_map].
  - rewrite app_nil_r. repeat split.
  - destruct (IH (output_batch false fd n o s)) as (H1 & H2 & H3 & H4 & H5 & H6).
    assert (Hb : compressingBuffer (output_batch false fd n o s) = compressingBuffer s /\
                 outputDoubleBuffer (output_batch false fd n o s) = outputDoubleBuffer s /\
                 hasOutstandingOperation (output_batch false fd n o s)
                   = hasOutstandingOperation s /\
                 numAioWritesCompleted (output_batch false fd n o s)
                   = numAioWritesCompleted s /\
                 totalBytesWritten (output_batch false fd n o s) = totalBytesWritten s /\
                 io_log (output_batch false fd n o s)
                   = io_log s ++ sync_batch_events fd (compressingBuffer s) (n, o)).
    { unfold output_batch, sync_batch_events. cbn [fst snd].
      destruct (n =? write_result o); cbn; repeat split.
      rewrite <- app_assoc. reflexivity. }
    destruct Hb as (B1 & B2 & B3 & B4 & B5 & B6).
    rewrite H1, H2, H3, H4, H5, H6, B1, B2, B3, B4, B5, B6, <- app_assoc.
    repeat split.
Qed.
